(** * spbuilder: the scenery_packs.ini builder

    A shallow embedding of [spbuilder.py] and the properties of its
    merge, ordering and rendering steps.

    Modelling choices.
    - A Python [str] is a [string]; its characters are the code points
      below 256, ordered by code point, which is the order Python's string
      comparison uses.
    - [os.path] is [posixpath]: the separator is the slash.
    - A Python exception is a value of [exn]; a function that may raise
      returns a [result].
    - The configuration is the parsed [ConfigParser]: a map from section
      names to maps from option names to values.
    - The file system is a pair of finite maps: text files and directory
      listings. *)

From Stdlib Require Import Ascii String.
From stdpp Require Import base option list sorting gmap strings.

(** ** Exceptions and results *)

Inductive exn : Type :=
  | FileNotFoundError (path : string)
  | NotADirectoryError (path : string)
  | KeyError (key : string)
  | ValueError (value : string)
  | IndexError.

Inductive result (A : Type) : Type :=
  | Ok (a : A)
  | Raise (e : exn).
Arguments Ok {A} a.
Arguments Raise {A} e.

(** The error monad, with stdpp's [x ← r; k] notation. *)
Global Instance result_ret : MRet result := λ A a, Ok a.
Global Instance result_bind : MBind result := λ A B k r,
  match r with
  | Ok a => k a
  | Raise e => Raise e
  end.

(** [[f(x) for x in l]] where [f] may raise: the first failure wins. *)
Fixpoint for_each {A B} (f : A → result B) (l : list A) : result (list B) :=
  match l with
  | [] => Ok []
  | x :: l' => y ← f x; ys ← for_each f l'; Ok (y :: ys)
  end.

(** ** Python strings *)

Definition LF : ascii := "010"%char.
Definition CR : ascii := "013"%char.
Definition NL : string := String LF "".

(** [s.startswith(p)] *)
Definition startswith (s p : string) : bool := String.prefix p s.

(** [s.startswith((p1, p2, ...))] *)
Definition startswith_any (s : string) (ps : list string) : bool :=
  existsb (startswith s) ps.

(** [s.replace(old, new)] for a one-character [old]. *)
Fixpoint replace (old : ascii) (new : string) (s : string) : string :=
  match s with
  | "" => ""
  | String c s' =>
      if decide (c = old) then new +:+ replace old new s'
      else String c (replace old new s')
  end.

(** [sep.join(l)] *)
Fixpoint join (sep : string) (l : list string) : string :=
  match l with
  | [] => ""
  | [x] => x
  | x :: l' => x +:+ sep +:+ join sep l'
  end.

(** [str.isspace] on one character: the code points 9 to 13, 28 to 32,
    133 and 160. *)
Definition isspace (c : ascii) : bool :=
  let n := N_of_ascii c in
  ((9 <=? n)%N && (n <=? 13)%N) || ((28 <=? n)%N && (n <=? 32)%N)
  || (n =? 133)%N || (n =? 160)%N.

(** [s.lstrip()] with a predicate for the characters to drop. *)
Fixpoint lstrip (drop : ascii → bool) (s : string) : string :=
  match s with
  | "" => ""
  | String c s' => if drop c then lstrip drop s' else s
  end.

(** [s.rstrip()] with a predicate for the characters to drop. *)
Fixpoint rstrip (drop : ascii → bool) (s : string) : string :=
  match s with
  | "" => ""
  | String c s' =>
      match rstrip drop s' with
      | "" => if drop c then "" else String c ""
      | r => String c r
      end
  end.

(** [s.strip()] *)
Definition strip (s : string) : string := rstrip isspace (lstrip isspace s).

(** [s.lower()] on the letters A to Z. *)
Definition lower_char (c : ascii) : ascii :=
  let n := N_of_ascii c in
  if ((65 <=? n)%N && (n <=? 90)%N) then ascii_of_N (n + 32) else c.

Fixpoint lower (s : string) : string :=
  match s with
  | "" => ""
  | String c s' => String (lower_char c) (lower s')
  end.

(** [f.readlines()] of a text file opened with universal newlines: a line
    ends at LF, CR or CR LF, and every line end is read as LF. [cur] is the
    line read so far, reversed. *)
Fixpoint readlines_go (cur : string) (s : string) : list string :=
  match s with
  | "" => match cur with "" => [] | _ => [String.rev cur] end
  | String c s' =>
      if decide (c = LF) then
        String.rev (String LF cur) :: readlines_go "" s'
      else if decide (c = CR) then
        match s' with
        | String c' s'' =>
            if decide (c' = LF)
            then String.rev (String LF cur) :: readlines_go "" s''
            else String.rev (String LF cur) :: readlines_go "" s'
        | "" => [String.rev (String LF cur)]
        end
      else readlines_go (String c cur) s'
  end.

Definition readlines (content : string) : list string :=
  readlines_go "" content.

(** ** os.path *)

Definition SEP : ascii := "/"%char.

(** [after_last_sep p cand] is the part of [p] after its last separator,
    and [cand] when [p] has none. *)
Fixpoint after_last_sep (p cand : string) : string :=
  match p with
  | "" => cand
  | String c p' =>
      if decide (c = SEP) then after_last_sep p' p' else after_last_sep p' cand
  end.

(** [os.path.basename(p)]: [p[p.rfind('/') + 1:]] *)
Definition basename (p : string) : string := after_last_sep p p.

Fixpoint endswith_sep (a : string) : bool :=
  match a with
  | "" => false
  | String c "" => bool_decide (c = SEP)
  | String _ a' => endswith_sep a'
  end.

(** [os.path.join(a, b)] *)
Definition path_join (a b : string) : string :=
  if startswith b "/" then b
  else if bool_decide (a = "") || endswith_sep a then a +:+ b
  else a +:+ "/" +:+ b.

(** ** Configuration *)

Definition SEC_SCENERY : string := "scenery".
Definition OPT_SCENERY_LIBS : string := "libraries".
Definition OPT_SCENERY_MESHES : string := "base".
Definition OPT_SCENERY_DEFAULT_AIRPORTS : string := "default_airports".
Definition OPT_SCENERY_CUSTOM_AIRPORTS : string := "custom_airports".
Definition OPT_SCENERY_TOP : string := "top".

Definition SEC_XPL : string := "xplane".
Definition OPT_XPL_INSTALL_PATH : string := "install_path".
Definition OPT_XPL_SCEN_INI : string := "scenery_packs".

Definition SEC_OPS : string := "ops".
Definition OPT_OPS_MERGE : string := "merge_mode".
Definition OPT_OPS_ZZEND : string := "zz_at_end".

Definition HEADER : string :=
  "I" +:+ NL +:+ "1000 Version" +:+ NL +:+ "SCENERY" +:+ NL +:+ NL.

(** A section of the parsed configuration, and the configuration. *)
Abbreviation section := (gmap string string).
Abbreviation config := (gmap string (gmap string string)).

(** [m[k]] on a mapping: [KeyError] when [k] is absent. *)
Definition getitem {V} (m : gmap string V) (k : string) : result V :=
  match m !! k with
  | Some v => Ok v
  | None => Raise (KeyError k)
  end.

(** [ConfigParser.BOOLEAN_STATES] *)
Definition BOOLEAN_STATES : list (string * bool) :=
  [("1", true); ("yes", true); ("true", true); ("on", true);
   ("0", false); ("no", false); ("false", false); ("off", false)].

Fixpoint assoc (k : string) (l : list (string * bool)) : option bool :=
  match l with
  | [] => None
  | (k', b) :: l' => if decide (k = k') then Some b else assoc k l'
  end.

(** [sec.getboolean(opt, fallback=fallback)]: the fallback when the option
    is absent, [ValueError] when its value is not a boolean word. *)
Definition getboolean (sec : section) (opt : string) (fallback : bool)
  : result bool :=
  match sec !! opt with
  | None => Ok fallback
  | Some v =>
      match assoc (lower v) BOOLEAN_STATES with
      | Some b => Ok b
      | None => Raise (ValueError v)
      end
  end.

(** ** File system *)

(** [files] maps the path of a text file to its content; [dirs] maps the
    path of a directory to its children in listing order, each with the
    answer of [stat.S_ISDIR] on it. *)
Record filesystem : Type := Filesystem {
  files : gmap string string;
  dirs : gmap string (list (string * bool))
}.

(** [open(path)] followed by reading the whole file. *)
Definition open_read (fs : filesystem) (path : string) : result string :=
  match files fs !! path with
  | Some content => Ok content
  | None => Raise (FileNotFoundError path)
  end.

(** [open(path, 'w')] followed by [f.write(content)]: the file is created
    or overwritten. *)
Definition open_write (fs : filesystem) (path content : string) : filesystem :=
  {| files := <[path := content]> (files fs); dirs := dirs fs |}.

(** [os.listdir(path)] with the directory flag of every child. *)
Definition listdir (fs : filesystem) (path : string)
  : result (list (string * bool)) :=
  match dirs fs !! path with
  | Some children => Ok children
  | None =>
      match files fs !! path with
      | Some _ => Raise (NotADirectoryError path)
      | None => Raise (FileNotFoundError path)
      end
  end.

(** ** The program *)

Definition is_slash (c : ascii) : bool := bool_decide (c = "/"%char).

Definition read_scenery_list (fs : filesystem) (path : string)
  : result (list string) :=
  content ← open_read fs path;
  Ok ((λ line, rstrip is_slash (strip line)) <$> readlines content).

(** The category options in the order of the loop of [read_scenery_db]. *)
Definition stypes : list string :=
  [OPT_SCENERY_TOP; OPT_SCENERY_CUSTOM_AIRPORTS; OPT_SCENERY_DEFAULT_AIRPORTS;
   OPT_SCENERY_LIBS; OPT_SCENERY_MESHES].

(** The loop of [read_scenery_db] over the remaining categories [sts], with
    the list built so far. *)
Fixpoint read_scenery_db_loop (cfg_scen : section) (fs : filesystem)
    (sts : list string) (scenery_db : list string) : result (list string) :=
  match sts with
  | [] => Ok scenery_db
  | stype :: sts' =>
      match cfg_scen !! stype with
      | Some path =>
          entries ← read_scenery_list fs path;
          read_scenery_db_loop cfg_scen fs sts' (scenery_db ++ entries)
      | None => read_scenery_db_loop cfg_scen fs sts' scenery_db
      end
  end.

Definition read_scenery_db (cfg : config) (fs : filesystem)
  : result (list string) :=
  cfg_scen ← getitem cfg SEC_SCENERY;
  read_scenery_db_loop cfg_scen fs stypes [].

Definition read_xpl_custom_scenery (fs : filesystem) (path : string)
  : result (list string) :=
  children ← listdir fs path;
  Ok (flat_map
        (λ centry : string * bool,
           if centry.2 then [path_join "Custom Scenery" centry.1] else [])
        children).

(** [sorted(l)] on strings. *)
Definition sorted (l : list string) : list string := merge_sort String.le l.

(** [frozenset(map(os.path.basename, dscen))] *)
Definition dscen_base (dscen : list string) : gset string :=
  list_to_set (basename <$> dscen).

(** The second component of the result of [read_all_sceneries]: the
    scanned entries whose base name is not in the DB, sorted. *)
Definition cscen_filtered (dscen cscen : list string) : list string :=
  sorted (filter (λ x, basename x ∉ dscen_base dscen) cscen).

Definition read_all_sceneries (cfg : config) (fs : filesystem)
  : result (list string * list string) :=
  cfg_xpl ← getitem cfg SEC_XPL;
  install_path ← getitem cfg_xpl OPT_XPL_INSTALL_PATH;
  let custom_scenery_folder := path_join install_path "Custom Scenery" in
  cscen ← read_xpl_custom_scenery fs custom_scenery_folder;
  dscen ← read_scenery_db cfg fs;
  Ok (dscen, cscen_filtered dscen cscen).

(** The test of the [filter] that selects the zz sceneries. *)
Definition is_zz (s : string) : bool :=
  startswith_any (basename s) ["z"; "-z"].

(** [zz_sceneries] after the [if zz_at_end] block. *)
Definition zz_sceneries (zz_at_end : bool) (cs : list string) : list string :=
  if zz_at_end then filter (λ s, is_zz s) cs else [].

(** [cs_sceneries] after the [if zz_at_end] block. *)
Definition cs_sceneries (zz_at_end : bool) (cs : list string) : list string :=
  if zz_at_end then filter (λ s, s ∉ zz_sceneries true cs) cs else cs.

(** [sceneries]: the merged sequence that is rendered. *)
Definition sceneries (merge_mode : string) (zz_at_end : bool)
    (db cs : list string) : list string :=
  (if decide (merge_mode = "top")
   then cs_sceneries zz_at_end cs ++ db
   else db ++ cs_sceneries zz_at_end cs)
  ++ zz_sceneries zz_at_end cs.

(** [s[0]] *)
Definition first_char (s : string) : result ascii :=
  match s with
  | String c _ => Ok c
  | "" => Raise IndexError
  end.

(** [s[1:]] *)
Definition tail (s : string) : string :=
  match s with
  | String _ s' => s'
  | "" => ""
  end.

(** One element of the list comprehension [lines]. *)
Definition scenery_line (s : string) : result string :=
  c ← first_char s;
  let scen_mode := if decide (c ≠ "-"%char) then "PACK" else "DISABLED" in
  c' ← first_char s;
  let scen_path :=
    replace "\"%char "/" (if decide (c' ≠ "-"%char) then s else tail s) +:+ "/" in
  Ok ("SCENERY_" +:+ scen_mode +:+ " " +:+ scen_path).

Definition make_scenery_ini (cfg : config) (db_sceneries cs : list string)
  : result string :=
  cfg_ops ← getitem cfg SEC_OPS;
  merge_mode ← getitem cfg_ops OPT_OPS_MERGE;
  zz_at_end ← getboolean cfg_ops OPT_OPS_ZZEND true;
  lines ← for_each scenery_line (sceneries merge_mode zz_at_end db_sceneries cs);
  Ok (HEADER +:+ join NL lines).

Definition write_scenery_ini (cfg : config) (sini : string) (fs : filesystem)
  : result unit * filesystem :=
  match
    cfg_xpl ← getitem cfg SEC_XPL;
    match cfg_xpl !! OPT_XPL_SCEN_INI with
    | Some p => Ok p
    | None =>
        install_path ← getitem cfg_xpl OPT_XPL_INSTALL_PATH;
        Ok (path_join (path_join install_path "Custom Scenery")
                      "scenery_packs.ini")
    end
  with
  | Ok scen_ini_file => (Ok (), open_write fs scen_ini_file sini)
  | Raise e => (Raise e, fs)
  end.

(** The arguments are evaluated before the call of [write_scenery_ini]. *)
Definition rebuild_scenery_ini (cfg : config) (fs : filesystem)
  : result unit * filesystem :=
  match
    scen ← read_all_sceneries cfg fs;
    make_scenery_ini cfg scen.1 scen.2
  with
  | Ok sini => write_scenery_ini cfg sini fs
  | Raise e => (Raise e, fs)
  end.

(** ** Definitions used in the statements *)

(** [has_sep s]: the string [s] contains a separator. *)
Fixpoint has_sep (s : string) : bool :=
  match s with
  | "" => false
  | String c s' => bool_decide (c = SEP) || has_sep s'
  end.

(** The number of occurrences of [e] in [l]. *)
Definition occurrences (e : string) (l : list string) : nat :=
  length (filter (λ x, x = e) l).

(** The base name as the specification words it: the final path component
    with a leading disable marker removed. *)
Definition spec_base_name (e : string) : string :=
  match basename e with
  | String "-" r => r
  | b => b
  end.

(** The line of an entry as the specification words it. The path has every
    backslash turned into a slash, character by character. *)
Fixpoint map_chars (f : ascii → ascii) (s : string) : string :=
  match s with
  | "" => ""
  | String c s' => String (f c) (map_chars f s')
  end.

Definition to_slash (c : ascii) : ascii :=
  if decide (c = "\"%char) then "/"%char else c.

Definition spec_line (s : string) : string :=
  match s with
  | String "-" r => "SCENERY_DISABLED " +:+ map_chars to_slash r +:+ "/"
  | _ => "SCENERY_PACK " +:+ map_chars to_slash s +:+ "/"
  end.

(** The entry of one line of a list file. *)
Definition clean_line (line : string) : string := rstrip is_slash (strip line).

(** The entries of one category: those of its file, and none for a
    category without an option in the section. *)
Definition category_entries (cfg_scen : section) (fs : filesystem)
    (stype : string) : list string :=
  match cfg_scen !! stype with
  | Some path =>
      match files fs !! path with
      | Some content => clean_line <$> readlines content
      | None => []
      end
  | None => []
  end.

(** The local [scen_ini_file] of [write_scenery_ini]: the configured path of
    the output file, and its default place under the installation. *)
Definition scen_ini_file (cfg_xpl : section) : result string :=
  match cfg_xpl !! OPT_XPL_SCEN_INI with
  | Some p => Ok p
  | None =>
      install_path ← getitem cfg_xpl OPT_XPL_INSTALL_PATH;
      Ok (path_join (path_join install_path "Custom Scenery")
                    "scenery_packs.ini")
  end.

(** ** The entry point *)

Definition DEFAULT_CONFIG_FILE : string := "spbuilder.ini".

Section main.
(** [ConfigParser.read_file] on the content of the configuration file: the
    parser of the standard library, taken as it is. *)
Variable read_file : string → result config.

Definition read_config (fs : filesystem) (path : string) : result config :=
  content ← open_read fs path;
  read_file content.

(** [args[1] if len(args) >= 2 else DEFAULT_CONFIG_FILE] *)
Definition config_file_of (args : list string) : string :=
  match args with
  | _ :: a :: _ => a
  | _ => DEFAULT_CONFIG_FILE
  end.

Definition main (args : list string) (fs : filesystem)
  : result unit * filesystem :=
  let config_file := config_file_of args in
  match read_config fs config_file with
  | Ok config => rebuild_scenery_ini config fs
  | Raise e => (Raise e, fs)
  end.
End main.

(** ** Predicates on strings used in the statements *)

(** Every character of [s] satisfies [p]. *)
Fixpoint all_chars (p : ascii → bool) (s : string) : bool :=
  match s with
  | "" => true
  | String c s' => p c && all_chars p s'
  end.

(** The character [c] occurs in [s]. *)
Fixpoint has_char (c : ascii) (s : string) : bool :=
  match s with
  | "" => false
  | String c' s' => bool_decide (c' = c) || has_char c s'
  end.

(** The first character of [s], when it has one. *)
Definition head_char (s : string) : option ascii :=
  match s with
  | "" => None
  | String c _ => Some c
  end.

(** * Properties *)

(** ** Examples *)

Example readlines_ex :
  readlines ("top/A" +:+ NL +:+ String CR NL +:+ "libs/B/") =
  ["top/A" +:+ NL; NL; "libs/B/"].
Proof. vm_compute. reflexivity. Qed.

Example basename_ex : basename "Custom Scenery/zzTerrain" = "zzTerrain".
Proof. reflexivity. Qed.

Example path_join_ex :
  path_join "Custom Scenery" "New" = "Custom Scenery/New".
Proof. reflexivity. Qed.

(** ** The error monad *)

Lemma bind_Ok {A B} (k : A → result B) (a : A) : (Ok a ≫= k) = k a.
Proof. reflexivity. Qed.

Lemma bind_Raise {A B} (k : A → result B) (e : exn) :
  (Raise e ≫= k) = Raise e.
Proof. reflexivity. Qed.

Lemma getitem_Some {V} (m : gmap string V) (k : string) (v : V) :
  m !! k = Some v → getitem m k = Ok v.
Proof. intros H. unfold getitem. by rewrite H. Qed.

(** ** Sorting *)

Section sorted.
Implicit Types l : list string.

Lemma sorted_Permutation l : sorted l ≡ₚ l.
Proof. apply merge_sort_Permutation. Qed.

Lemma sorted_Sorted l : Sorted String.le (sorted l).
Proof. apply (Sorted_merge_sort String.le). Qed.

Lemma elem_of_sorted l x : x ∈ sorted l ↔ x ∈ l.
Proof. by rewrite sorted_Permutation. Qed.

(** [sorted l] is the only ascending arrangement of [l]: the sorting
    algorithm does not matter. *)
Lemma sorted_unique l l' :
  Sorted String.le l' → l' ≡ₚ l → l' = sorted l.
Proof.
  intros Hs Hp.
  apply (Sorted_unique String.le); [done | apply sorted_Sorted |].
  by rewrite sorted_Permutation.
Qed.
End sorted.

(** ** Base names *)

Lemma append_String (c : ascii) (s t : string) :
  String c s +:+ t = String c (s +:+ t).
Proof. reflexivity. Qed.

Lemma append_empty_l (s : string) : "" +:+ s = s.
Proof. reflexivity. Qed.

Lemma after_last_sep_no_sep (p cand : string) :
  has_sep p = false → after_last_sep p cand = cand.
Proof.
  revert cand. induction p as [|c p IH]; intros cand Hp; [done|].
  simpl in *. apply orb_false_iff in Hp as [Hc Hp].
  apply bool_decide_eq_false in Hc.
  rewrite decide_False by done. by apply IH.
Qed.

Lemma after_last_sep_sep (p cand : string) :
  has_sep p = true →
  has_sep (after_last_sep p cand) = false ∧
  ∃ q, p = q +:+ String SEP (after_last_sep p cand).
Proof.
  revert cand. induction p as [|c p IH]; intros cand Hp; [done|].
  simpl in *. destruct (decide (c = SEP)) as [->|Hc].
  - destruct (has_sep p) eqn:Hsep.
    + destruct (IH p eq_refl) as [Hno [q Hq]]. split; [done|].
      exists (String SEP q). by rewrite append_String, <-Hq.
    + rewrite after_last_sep_no_sep by done. split; [done|]. by exists "".
  - rewrite bool_decide_eq_false_2 in Hp by done. simpl in Hp.
    destruct (IH cand Hp) as [Hno [q Hq]]. split; [done|].
    exists (String c q). by rewrite append_String, <-Hq.
Qed.

(** [basename p] is the final path component of [p]: it has no separator,
    and it is [p] itself or what follows the last separator of [p]. *)
Lemma basename_spec (p : string) :
  has_sep (basename p) = false ∧
  (if has_sep p then ∃ q, p = q +:+ String SEP (basename p)
   else basename p = p).
Proof.
  unfold basename. destruct (has_sep p) eqn:Hp.
  - by apply after_last_sep_sep.
  - rewrite after_last_sep_no_sep by done. by split.
Qed.

Lemma basename_append_sep (q r : string) :
  has_sep r = false → basename (q +:+ String SEP r) = r.
Proof.
  intros Hr. unfold basename.
  assert (∀ cand, after_last_sep (q +:+ String SEP r) cand = r) as H; [|done].
  induction q as [|c q IH]; intros cand.
  - rewrite append_empty_l. simpl. by apply after_last_sep_no_sep.
  - rewrite append_String. simpl. destruct (decide (c = SEP)); apply IH.
Qed.

(** ** The collision filter *)

Lemma elem_of_dscen_base (dscen : list string) (b : string) :
  b ∈ dscen_base dscen ↔ ∃ d, d ∈ dscen ∧ basename d = b.
Proof.
  unfold dscen_base. rewrite elem_of_list_to_set, list_elem_of_fmap.
  split; intros (d & ? & ?); exists d; by split.
Qed.

Lemma elem_of_cscen_filtered (dscen cscen : list string) (x : string) :
  x ∈ cscen_filtered dscen cscen ↔
  x ∈ cscen ∧ ∀ d, d ∈ dscen → basename d ≠ basename x.
Proof.
  unfold cscen_filtered.
  rewrite elem_of_sorted, list_elem_of_filter, elem_of_dscen_base.
  split.
  - intros [Hbase Hx]. split; [done|].
    intros d Hd Heq. apply Hbase. by exists d.
  - intros [Hx Hbase]. split; [|done].
    intros (d & Hd & Heq). by apply (Hbase d).
Qed.

Lemma cscen_filtered_not_in_db (dscen cscen : list string) (x : string) :
  x ∈ cscen_filtered dscen cscen → x ∉ dscen.
Proof.
  rewrite elem_of_cscen_filtered. intros [_ H] Hx. by apply (H x).
Qed.

Lemma filter_all {A} (P : A → Prop) `{!∀ x, Decision (P x)} (l : list A) :
  (∀ x, x ∈ l → P x) → filter P l = l.
Proof.
  induction l as [|x l IH]; intros Hall; [done|].
  rewrite filter_cons_True by (apply Hall; left).
  f_equal. apply IH. intros y Hy. apply Hall. by right.
Qed.

Lemma cscen_filtered_disjoint (dscen cscen : list string) :
  (∀ d l, d ∈ dscen → l ∈ cscen → basename l ≠ basename d) →
  cscen_filtered dscen cscen = sorted cscen.
Proof.
  intros H. unfold cscen_filtered. f_equal. apply filter_all.
  intros x Hx [d [Hd Heq]]%elem_of_dscen_base. by apply (H d x).
Qed.

(** ** The zz partition *)

Lemma cs_sceneries_not_zz (cs : list string) :
  cs_sceneries true cs = filter (λ s, ¬ is_zz s) cs.
Proof.
  unfold cs_sceneries, zz_sceneries.
  assert (∀ l : list string, (∀ x, x ∈ l → x ∈ cs) →
    filter (λ s, s ∉ filter (λ s, is_zz s) cs) l =
    filter (λ s, ¬ is_zz s) l) as H.
  { induction l as [|x l IH]; intros Hl; [done|].
    rewrite !filter_cons, IH by (intros y Hy; apply Hl; by right).
    assert (x ∈ cs) by (apply Hl; left).
    destruct (decide (x ∉ _)) as [Hx|Hx], (decide (¬ is_zz x)) as [Hz|Hz];
      try done; exfalso.
    - apply Hx. apply list_elem_of_filter. split; [|done].
      destruct (is_zz x); [done|]. apply Hz. intros [].
    - apply Hx. by intros [? _]%list_elem_of_filter. }
  by apply H.
Qed.

Lemma sceneries_top (zz_at_end : bool) (db cs : list string) :
  sceneries "top" zz_at_end db cs =
  cs_sceneries zz_at_end cs ++ db ++ zz_sceneries zz_at_end cs.
Proof. unfold sceneries. rewrite decide_True by done. by rewrite <-(assoc_L (++)). Qed.

Lemma sceneries_not_top (m : string) (zz_at_end : bool) (db cs : list string) :
  m ≠ "top" →
  sceneries m zz_at_end db cs =
  db ++ cs_sceneries zz_at_end cs ++ zz_sceneries zz_at_end cs.
Proof.
  intros Hm. unfold sceneries. rewrite decide_False by done.
  by rewrite <-(assoc_L (++)).
Qed.

(** ** Merge order *)

(** C1. When no base name of the scanned list [L] is a base name of the DB
    list [D], the collision filter removes nothing, so the live list is
    [sorted L]; the merged sequence is [D] followed by the live list for
    merge mode bottom and the live list followed by [D] for merge mode top.
    With [zz_at_end] the zz entries of the live list are moved, in their
    sorted order, behind everything else. *)
Theorem merge_disjoint_base_names (D L : list string) :
  (∀ d l, d ∈ D → l ∈ L → basename l ≠ basename d) →
  let live := cscen_filtered D L in
  live = sorted L ∧
  sceneries "bottom" false D live = D ++ live ∧
  sceneries "top" false D live = live ++ D ∧
  sceneries "bottom" true D live =
    D ++ filter (λ s, ¬ is_zz s) live ++ filter (λ s, is_zz s) live ∧
  sceneries "top" true D live =
    filter (λ s, ¬ is_zz s) live ++ D ++ filter (λ s, is_zz s) live.
Proof.
  intros Hdisj live. split; [by apply cscen_filtered_disjoint|].
  rewrite !sceneries_top, !sceneries_not_top by done.
  rewrite cs_sceneries_not_zz. simpl.
  by rewrite !(right_id_L [] (++)).
Qed.

Lemma merge_disjoint_base_names_witness :
  sceneries "top" true ["top/A"; "libs/-B"]
    (cscen_filtered ["top/A"; "libs/-B"]
       ["Custom Scenery/zz"; "Custom Scenery/B"; "Custom Scenery/-zA"]) =
  ["Custom Scenery/B"; "top/A"; "libs/-B";
   "Custom Scenery/-zA"; "Custom Scenery/zz"].
Proof.
  pose proof (merge_disjoint_base_names ["top/A"; "libs/-B"]
    ["Custom Scenery/zz"; "Custom Scenery/B"; "Custom Scenery/-zA"]) as H.
  destruct H as (_ & _ & _ & _ & ->).
  - intros d l Hd Hl.
    apply list_elem_of_In in Hd, Hl. simpl in Hd, Hl.
    intuition subst; vm_compute; discriminate.
  - vm_compute. reflexivity.
Defined.

(** C2. With [zz_at_end], an entry of the live list whose base name starts
    with [z] or [-z] occurs in the merged sequence, and each of its
    occurrences comes after every entry whose base name does not, whatever
    the merge mode. *)
Theorem zz_entries_trail (merge_mode : string) (D L : list string) (e : string) :
  let live := cscen_filtered D L in
  let out := sceneries merge_mode true D live in
  e ∈ live → is_zz e = true →
  e ∈ out ∧
  ∀ i j f, out !! i = Some e → out !! j = Some f → is_zz f = false → j < i.
Proof.
  intros live out He Hzz.
  assert (∃ pre, out = pre ++ filter (λ s, is_zz s) live ∧ e ∉ pre)
    as (pre & Hout & Hpre).
  { pose proof (cscen_filtered_not_in_db _ _ _ He) as HeD.
    assert (e ∉ cs_sceneries true live) as Hrest.
    { rewrite cs_sceneries_not_zz. intros [Hn _]%list_elem_of_filter.
      apply Hn. by rewrite Hzz. }
    unfold out, sceneries. simpl. destruct (decide (merge_mode = "top")).
    - eexists. split; [done|]. rewrite elem_of_app. tauto.
    - eexists. split; [done|]. rewrite elem_of_app. tauto. }
  assert (e ∈ filter (λ s, is_zz s) live) as Hin.
  { apply list_elem_of_filter. split; [by rewrite Hzz | done]. }
  rewrite Hout. split; [apply elem_of_app; by right|].
  intros i j f Hi Hj Hf.
  destruct (decide (i < length pre)) as [Hlt|Hge].
  { rewrite lookup_app_l in Hi by done.
    destruct Hpre. by eapply list_elem_of_lookup_2. }
  destruct (decide (j < length pre)) as [|Hj']; [lia|].
  rewrite lookup_app_r in Hj by lia.
  apply list_elem_of_lookup_2, list_elem_of_filter in Hj as [Hz _].
  by rewrite Hf in Hz.
Qed.

Lemma zz_entries_trail_witness :
  "Custom Scenery/zzTerrain" ∈
    sceneries "top" true ["top/A"; "zlibs/zB"]
      (cscen_filtered ["top/A"; "zlibs/zB"]
         ["Custom Scenery/zzTerrain"; "Custom Scenery/A"; "Custom Scenery/~N"]).
Proof.
  apply (zz_entries_trail "top" ["top/A"; "zlibs/zB"]
    ["Custom Scenery/zzTerrain"; "Custom Scenery/A"; "Custom Scenery/~N"]
    "Custom Scenery/zzTerrain").
  - vm_compute. apply list_elem_of_In. simpl. tauto.
  - vm_compute. reflexivity.
Defined.

(** ** The collision property *)

Lemma occurrences_app (e : string) (l1 l2 : list string) :
  occurrences e (l1 ++ l2) = occurrences e l1 + occurrences e l2.
Proof. unfold occurrences. by rewrite filter_app, length_app. Qed.

Lemma occurrences_not_in (e : string) (l : list string) :
  e ∉ l → occurrences e l = 0.
Proof.
  intros He. unfold occurrences.
  induction l as [|x l IH]; [done|].
  apply not_elem_of_cons in He as [Hne Hl].
  rewrite filter_cons_False by congruence. by apply IH.
Qed.

Lemma zz_sceneries_subseteq (zz_at_end : bool) (cs : list string) (e : string) :
  e ∈ zz_sceneries zz_at_end cs → e ∈ cs.
Proof.
  destruct zz_at_end; simpl; [|by intros ?%elem_of_nil].
  by intros [_ ?]%list_elem_of_filter.
Qed.

Lemma cs_sceneries_subseteq (zz_at_end : bool) (cs : list string) (e : string) :
  e ∈ cs_sceneries zz_at_end cs → e ∈ cs.
Proof.
  destruct zz_at_end; simpl; [|done].
  by intros [_ ?]%list_elem_of_filter.
Qed.

(** C3, as stated, fails: a scanned entry that is itself an entry of the DB
    list collides with it, and is in the merged sequence as that DB entry. *)
Lemma collision_entry_from_db :
  let D := ["Custom Scenery/A"] in
  let L := ["Custom Scenery/A"] in
  let e := "Custom Scenery/A" in
  e ∈ L ∧ (∃ d, d ∈ D ∧ basename e = basename d) ∧
  e ∈ sceneries "bottom" true D (cscen_filtered D L).
Proof.
  simpl. split; [by left|]. split.
  - exists "Custom Scenery/A". split; [by left | done].
  - vm_compute. by left.
Qed.

(** C3, amended. A scanned entry [e] whose base name is the base name of a
    DB entry is not in the live list, so the scan contributes no occurrence
    of it: [e] occurs in the merged sequence exactly as often as it occurs
    in the DB list, for every merge mode and every [zz_at_end]. *)
Theorem collision_entry_only_from_db
    (merge_mode : string) (zz_at_end : bool) (D L : list string) (e : string) :
  let live := cscen_filtered D L in
  let out := sceneries merge_mode zz_at_end D live in
  e ∈ L → (∃ d, d ∈ D ∧ basename e = basename d) →
  (e ∉ live) ∧ occurrences e out = occurrences e D ∧ (e ∈ out ↔ e ∈ D).
Proof.
  intros live out _ (d & Hd & Hbase).
  assert (e ∉ live) as Hlive.
  { intros [_ H]%elem_of_cscen_filtered. by apply (H d). }
  assert (e ∉ cs_sceneries zz_at_end live) as Hcs
    by (intros ?%cs_sceneries_subseteq; done).
  assert (e ∉ zz_sceneries zz_at_end live) as Hzz
    by (intros ?%zz_sceneries_subseteq; done).
  split; [done|]. split.
  - unfold out, sceneries.
    destruct (decide (merge_mode = "top"));
      rewrite !occurrences_app, !(occurrences_not_in e (cs_sceneries _ _)),
        !(occurrences_not_in e (zz_sceneries _ _)) by done; lia.
  - unfold out, sceneries.
    destruct (decide (merge_mode = "top")); rewrite !elem_of_app; tauto.
Qed.

Lemma collision_entry_only_from_db_witness :
  "Custom Scenery/A" ∉ cscen_filtered ["top/A"] ["Custom Scenery/A"].
Proof.
  apply (collision_entry_only_from_db "top" true ["top/A"] ["Custom Scenery/A"]
    "Custom Scenery/A").
  - by left.
  - exists "top/A". split; [by left | reflexivity].
Defined.

(** ** The scenario *)

(** C4. For the DB list [top/A], [libs/B] and the scanned list
    [Custom Scenery/zzTerrain], [Custom Scenery/A], [Custom Scenery/New], the
    entry with base name [A] is filtered out of the scan and, with merge mode
    bottom and [zz_at_end], the entries are merged and rendered in the order
    [top/A], [libs/B], [Custom Scenery/New], [Custom Scenery/zzTerrain]. *)
Theorem scenario_bottom_zz :
  let D := ["top/A"; "libs/B"] in
  let L := ["Custom Scenery/zzTerrain"; "Custom Scenery/A"; "Custom Scenery/New"] in
  let cfg : config :=
    {[ SEC_OPS := {[ OPT_OPS_MERGE := "bottom"; OPT_OPS_ZZEND := "true" ]} ]} in
  cscen_filtered D L = ["Custom Scenery/New"; "Custom Scenery/zzTerrain"] ∧
  sceneries "bottom" true D (cscen_filtered D L) =
    ["top/A"; "libs/B"; "Custom Scenery/New"; "Custom Scenery/zzTerrain"] ∧
  make_scenery_ini cfg D (cscen_filtered D L) =
    Ok (HEADER +:+ "SCENERY_PACK top/A/" +:+ NL +:+
        "SCENERY_PACK libs/B/" +:+ NL +:+
        "SCENERY_PACK Custom Scenery/New/" +:+ NL +:+
        "SCENERY_PACK Custom Scenery/zzTerrain/").
Proof. vm_compute. done. Qed.

(** ** Base names in the comparison and in the zz test *)

Lemma startswith_spec (s p : string) :
  startswith s p = true ↔ ∃ r, s = p +:+ r.
Proof.
  unfold startswith. revert s. induction p as [|c p IH]; intros s.
  - destruct s; simpl; split; eauto.
  - destruct s as [|c' s]; simpl.
    + split; [done|]. by intros [r Hr].
    + destruct (Ascii.ascii_dec c c') as [->|Hne].
      * rewrite IH. split; intros [r Hr]; exists r.
        -- by rewrite append_String, Hr.
        -- rewrite append_String in Hr. by simplify_eq.
      * split; [done|]. intros [r Hr].
        rewrite append_String in Hr. by simplify_eq.
Qed.

Lemma is_zz_spec (s : string) :
  is_zz s = true ↔
  ∃ r, basename s = "z" +:+ r ∨ basename s = "-z" +:+ r.
Proof.
  unfold is_zz, startswith_any. simpl.
  rewrite orb_false_r, orb_true_iff, !startswith_spec.
  split.
  - intros [[r Hr]|[r Hr]]; exists r; [by left | by right].
  - intros [r [Hr|Hr]]; [left | right]; by exists r.
Qed.

(** C5, as stated, fails: the comparison keeps the marker of a base name.
    The entry [-Foo] is compared under the base name [-Foo], not [Foo], so a
    scanned [Custom Scenery/Foo] does not collide with it. *)
Lemma base_name_keeps_marker :
  basename "-Foo" = "-Foo" ∧
  spec_base_name "-Foo" = "Foo" ∧
  basename "-Foo" ≠ spec_base_name "-Foo" ∧
  cscen_filtered ["-Foo"] ["Custom Scenery/Foo"] = ["Custom Scenery/Foo"].
Proof. vm_compute. done. Qed.

(** C5, amended. The base name of an entry in the collision comparison and
    in the zz test is its final path component as it is, a leading [-]
    included: the entry itself when it has no separator, and otherwise what
    follows its last separator. A scanned entry is kept exactly when no DB
    entry has the same base name, and an entry is zz exactly when its base
    name starts with [z] or with [-z]. *)
Theorem base_name_is_final_component (e : string) :
  has_sep (basename e) = false ∧
  (if has_sep e then ∃ q, e = q +:+ String SEP (basename e)
   else basename e = e) ∧
  (∀ D L, e ∈ cscen_filtered D L ↔
          e ∈ L ∧ ∀ d, d ∈ D → basename d ≠ basename e) ∧
  (is_zz e = true ↔ ∃ r, basename e = "z" +:+ r ∨ basename e = "-z" +:+ r).
Proof.
  destruct (basename_spec e) as [Hno Hcomp].
  split; [done|]. split; [done|]. split.
  - intros D L. apply elem_of_cscen_filtered.
  - apply is_zz_spec.
Qed.

(** ** Rendering *)

Lemma replace_backslash (s : string) :
  replace "\"%char "/" s = map_chars to_slash s.
Proof.
  induction s as [|c s IH]; [done|].
  simpl. unfold to_slash. destruct (decide (c = "\"%char)); by rewrite IH.
Qed.

Lemma scenery_line_nonempty (s : string) :
  s ≠ "" → scenery_line s = Ok (spec_line s).
Proof.
  destruct s as [|c s]; [done|]. intros _.
  unfold scenery_line, spec_line. simpl.
  destruct (decide (c ≠ "-"%char)) as [Hc|Hc].
  - rewrite replace_backslash.
    destruct c as [[] [] [] [] [] [] [] []]; try done.
  - apply dec_stable in Hc as ->. simpl. by rewrite replace_backslash.
Qed.

Lemma scenery_line_empty : scenery_line "" = Raise IndexError.
Proof. reflexivity. Qed.

Lemma for_each_scenery_line_nonempty (l : list string) :
  Forall (λ s, s ≠ "") l → for_each scenery_line l = Ok (spec_line <$> l).
Proof.
  induction 1 as [|s l Hs _ IH]; [done|].
  simpl. by rewrite scenery_line_nonempty, IH.
Qed.

Lemma for_each_scenery_line_empty (l : list string) :
  "" ∈ l → for_each scenery_line l = Raise IndexError.
Proof.
  induction l as [|s l IH]; [by intros ?%elem_of_nil|].
  intros Hin. simpl. destruct (decide (s = "")) as [->|Hs]; [done|].
  rewrite scenery_line_nonempty by done.
  apply elem_of_cons in Hin as [|Hin]; [done|].
  by rewrite IH.
Qed.

Lemma make_scenery_ini_unfold
    (cfg : config) (cfg_ops : section) (merge_mode : string) (zz_at_end : bool)
    (db cs : list string) :
  cfg !! SEC_OPS = Some cfg_ops →
  cfg_ops !! OPT_OPS_MERGE = Some merge_mode →
  getboolean cfg_ops OPT_OPS_ZZEND true = Ok zz_at_end →
  make_scenery_ini cfg db cs =
  lines ← for_each scenery_line (sceneries merge_mode zz_at_end db cs);
  Ok (HEADER +:+ join NL lines).
Proof.
  intros Hops Hm Hzz. unfold make_scenery_ini.
  rewrite (getitem_Some _ _ _ Hops). simpl.
  rewrite (getitem_Some _ _ _ Hm). simpl.
  by rewrite Hzz.
Qed.

Example scenery_line_disabled :
  scenery_line "-Custom Scenery/Old" = Ok "SCENERY_DISABLED Custom Scenery/Old/".
Proof. reflexivity. Qed.

Example scenery_line_pack :
  scenery_line "Custom Scenery/New" = Ok "SCENERY_PACK Custom Scenery/New/".
Proof. reflexivity. Qed.

(** C6. When no entry of the merged sequence is empty, the generated text is
    the header [I], [1000 Version], [SCENERY] and an empty line, followed by
    one line per entry joined by single newlines: [SCENERY_PACK path/] for an
    entry whose first character is not [-], [SCENERY_DISABLED path/] for one
    whose first character is [-], which is left out of the path; every
    backslash of the path is a slash in the line. *)
Theorem rendered_lines
    (cfg : config) (cfg_ops : section) (merge_mode : string) (zz_at_end : bool)
    (db cs : list string) :
  cfg !! SEC_OPS = Some cfg_ops →
  cfg_ops !! OPT_OPS_MERGE = Some merge_mode →
  getboolean cfg_ops OPT_OPS_ZZEND true = Ok zz_at_end →
  Forall (λ s, s ≠ "") (sceneries merge_mode zz_at_end db cs) →
  make_scenery_ini cfg db cs =
    Ok (HEADER +:+
        join NL (spec_line <$> sceneries merge_mode zz_at_end db cs)) ∧
  N_of_ascii <$> list_ascii_of_string HEADER =
    [73; 10; 49; 48; 48; 48; 32; 86; 101; 114; 115; 105; 111; 110; 10;
     83; 67; 69; 78; 69; 82; 89; 10; 10]%N.
Proof.
  intros Hops Hm Hzz Hne. split; [|done].
  rewrite (make_scenery_ini_unfold _ _ _ _ _ _ Hops Hm Hzz).
  by rewrite for_each_scenery_line_nonempty.
Qed.

Lemma rendered_lines_witness :
  make_scenery_ini {[ SEC_OPS := {[ OPT_OPS_MERGE := "top" ]} ]}
    ["-libs\Old"] ["Custom Scenery/New"] =
  Ok (HEADER +:+ "SCENERY_PACK Custom Scenery/New/" +:+ NL +:+
      "SCENERY_DISABLED libs/Old/").
Proof.
  refine (proj1 (rendered_lines {[ SEC_OPS := {[ OPT_OPS_MERGE := "top" ]} ]}
    {[ OPT_OPS_MERGE := "top" ]} "top" true
    ["-libs\Old"] ["Custom Scenery/New"] _ _ _ _)).
  - reflexivity.
  - reflexivity.
  - reflexivity.
  - vm_compute. repeat constructor; discriminate.
Defined.

(** ** The database loader *)

Lemma read_scenery_list_Some (fs : filesystem) (path content : string) :
  files fs !! path = Some content →
  read_scenery_list fs path = Ok (clean_line <$> readlines content).
Proof. intros H. unfold read_scenery_list, open_read. by rewrite H. Qed.

Lemma read_scenery_list_None (fs : filesystem) (path : string) :
  files fs !! path = None →
  read_scenery_list fs path = Raise (FileNotFoundError path).
Proof. intros H. unfold read_scenery_list, open_read. by rewrite H. Qed.

Lemma read_scenery_db_loop_ok
    (cfg_scen : section) (fs : filesystem) (sts scenery_db : list string) :
  (∀ st path, st ∈ sts → cfg_scen !! st = Some path →
              is_Some (files fs !! path)) →
  read_scenery_db_loop cfg_scen fs sts scenery_db =
  Ok (scenery_db ++ concat (category_entries cfg_scen fs <$> sts)).
Proof.
  revert scenery_db. induction sts as [|st sts IH]; intros scenery_db Hfiles.
  - simpl. by rewrite (right_id_L [] (++)).
  - simpl. unfold category_entries at 1.
    destruct (cfg_scen !! st) as [path|] eqn:Hst.
    + destruct (Hfiles st path) as [content Hc]; [by left | done |].
      rewrite (read_scenery_list_Some _ _ _ Hc), Hc. simpl.
      rewrite IH by (intros ???; apply Hfiles; by right).
      by rewrite <-(assoc_L (++)).
    + rewrite IH by (intros ???; apply Hfiles; by right). done.
Qed.

Lemma read_scenery_db_loop_missing
    (cfg_scen : section) (fs : filesystem) (sts scenery_db : list string)
    (st path : string) :
  st ∈ sts → cfg_scen !! st = Some path → files fs !! path = None →
  ∃ st' p, st' ∈ sts ∧ cfg_scen !! st' = Some p ∧ files fs !! p = None ∧
    read_scenery_db_loop cfg_scen fs sts scenery_db =
    Raise (FileNotFoundError p).
Proof.
  revert scenery_db. induction sts as [|st0 sts IH]; intros scenery_db Hin Hst Hnone.
  { by apply elem_of_nil in Hin. }
  simpl. destruct (cfg_scen !! st0) as [p0|] eqn:Hst0.
  - destruct (files fs !! p0) as [content|] eqn:Hp0.
    + rewrite (read_scenery_list_Some _ _ _ Hp0). simpl.
      apply elem_of_cons in Hin as [->|Hin]; [congruence|].
      destruct (IH (scenery_db ++ (clean_line <$> readlines content)) Hin Hst Hnone)
        as (st' & p & ? & ? & ? & ?).
      exists st', p. repeat split; try done. by right.
    + rewrite (read_scenery_list_None _ _ Hp0). simpl.
      exists st0, p0. repeat split; try done. by left.
  - apply elem_of_cons in Hin as [->|Hin]; [congruence|].
    destruct (IH scenery_db Hin Hst Hnone) as (st' & p & ? & ? & ? & ?).
    exists st', p. repeat split; try done. by right.
Qed.

(** C7. When every configured category file exists, the DB list is the
    entries of the categories [top], [custom_airports], [default_airports],
    [libraries] and [base] in this order; the entries of a category are the
    lines of its file in file order, and a category without a configured
    file contributes nothing and raises nothing. *)
Theorem read_scenery_db_order (cfg : config) (cfg_scen : section) (fs : filesystem) :
  cfg !! SEC_SCENERY = Some cfg_scen →
  (∀ st path, st ∈ stypes → cfg_scen !! st = Some path →
              is_Some (files fs !! path)) →
  read_scenery_db cfg fs =
    Ok (category_entries cfg_scen fs "top" ++
        category_entries cfg_scen fs "custom_airports" ++
        category_entries cfg_scen fs "default_airports" ++
        category_entries cfg_scen fs "libraries" ++
        category_entries cfg_scen fs "base") ∧
  (∀ st, cfg_scen !! st = None → category_entries cfg_scen fs st = []) ∧
  (∀ st path content i,
     cfg_scen !! st = Some path → files fs !! path = Some content →
     category_entries cfg_scen fs st !! i =
     clean_line <$> readlines content !! i).
Proof.
  intros Hscen Hfiles. split; [|split].
  - unfold read_scenery_db. rewrite (getitem_Some _ _ _ Hscen), bind_Ok.
    rewrite read_scenery_db_loop_ok by done. simpl.
    by rewrite (right_id_L [] (++)).
  - intros st Hst. unfold category_entries. by rewrite Hst.
  - intros st path content i Hst Hc. unfold category_entries.
    rewrite Hst, Hc. apply list_lookup_fmap.
Qed.

Lemma read_scenery_db_order_witness :
  read_scenery_db
    {[ SEC_SCENERY := {[ "base" := "db/base.txt"; "top" := "db/top.txt" ]} ]}
    {| files := {[ "db/top.txt" := "top/B/" +:+ NL +:+ " -top/A" +:+ NL;
                   "db/base.txt" := "mesh/Z" ]};
       dirs := ∅ |} =
  Ok ["top/B"; "-top/A"; "mesh/Z"].
Proof.
  refine (proj1 (read_scenery_db_order _
    {[ "base" := "db/base.txt"; "top" := "db/top.txt" ]} _ _ _)).
  - reflexivity.
  - intros st path Hst%list_elem_of_In. simpl in Hst.
    intuition subst; vm_compute in *; simplify_eq; eauto.
Defined.

(** ** Errors before the write step *)

Lemma rebuild_scenery_ini_Raise (cfg : config) (fs : filesystem) (e : exn) :
  (scen ← read_all_sceneries cfg fs; make_scenery_ini cfg scen.1 scen.2)
    = Raise e →
  rebuild_scenery_ini cfg fs = (Raise e, fs).
Proof. intros H. unfold rebuild_scenery_ini. by rewrite H. Qed.


Lemma read_all_sceneries_db_Raise
    (cfg : config) (fs : filesystem) (cfg_xpl : section)
    (install_path : string) (cscen : list string) (e : exn) :
  cfg !! SEC_XPL = Some cfg_xpl →
  cfg_xpl !! OPT_XPL_INSTALL_PATH = Some install_path →
  read_xpl_custom_scenery fs (path_join install_path "Custom Scenery")
    = Ok cscen →
  read_scenery_db cfg fs = Raise e →
  read_all_sceneries cfg fs = Raise e.
Proof.
  intros Hxpl Hinst Hscan Hdb. unfold read_all_sceneries.
  rewrite (getitem_Some _ _ _ Hxpl), bind_Ok.
  rewrite (getitem_Some _ _ _ Hinst), bind_Ok.
  by rewrite Hscan, bind_Ok, Hdb.
Qed.

Lemma read_all_sceneries_Raise_of_db
    (cfg : config) (fs : filesystem) (e : exn) :
  read_scenery_db cfg fs = Raise e →
  ∃ e', read_all_sceneries cfg fs = Raise e'.
Proof.
  intros Hdb. unfold read_all_sceneries.
  destruct (getitem cfg SEC_XPL) as [cfg_xpl|e1]; [|by exists e1].
  rewrite bind_Ok.
  destruct (getitem cfg_xpl OPT_XPL_INSTALL_PATH) as [install|e2];
    [|by exists e2].
  rewrite bind_Ok.
  destruct (read_xpl_custom_scenery _ _) as [cscen|e3]; [|by exists e3].
  rewrite bind_Ok, Hdb. by exists e.
Qed.

(** C8. When the file of a configured category is absent, [read_scenery_db]
    raises [FileNotFoundError] for such a file. Nothing catches it: once the
    scan of the custom scenery folder has succeeded, [read_all_sceneries] and
    [rebuild_scenery_ini] raise the same error, and in every case
    [rebuild_scenery_ini] ends with an error and the file system as it was,
    so nothing has been written. *)
Theorem missing_category_file_propagates
    (cfg : config) (cfg_scen : section) (fs : filesystem) (st path : string) :
  cfg !! SEC_SCENERY = Some cfg_scen →
  st ∈ stypes → cfg_scen !! st = Some path → files fs !! path = None →
  ∃ p,
    (∃ st', st' ∈ stypes ∧ cfg_scen !! st' = Some p ∧ files fs !! p = None) ∧
    read_scenery_db cfg fs = Raise (FileNotFoundError p) ∧
    (∀ cfg_xpl install_path cscen,
       cfg !! SEC_XPL = Some cfg_xpl →
       cfg_xpl !! OPT_XPL_INSTALL_PATH = Some install_path →
       read_xpl_custom_scenery fs (path_join install_path "Custom Scenery")
         = Ok cscen →
       read_all_sceneries cfg fs = Raise (FileNotFoundError p) ∧
       rebuild_scenery_ini cfg fs = (Raise (FileNotFoundError p), fs)) ∧
    ∃ e, rebuild_scenery_ini cfg fs = (Raise e, fs).
Proof.
  intros Hscen Hst Hpath Hnone.
  destruct (read_scenery_db_loop_missing cfg_scen fs stypes [] st path
    Hst Hpath Hnone) as (st' & p & Hst' & Hp & Hpnone & Hloop).
  assert (read_scenery_db cfg fs = Raise (FileNotFoundError p)) as Hdb.
  { unfold read_scenery_db. by rewrite (getitem_Some _ _ _ Hscen), bind_Ok. }
  exists p. split; [by exists st'|]. split; [done|]. split.
  - intros cfg_xpl install_path cscen Hxpl Hinst Hscan.
    pose proof (read_all_sceneries_db_Raise _ _ _ _ _ _ Hxpl Hinst Hscan Hdb)
      as Hall.
    split; [done|]. apply rebuild_scenery_ini_Raise. by rewrite Hall.
  - destruct (read_all_sceneries_Raise_of_db _ _ _ Hdb) as [e He].
    exists e. apply rebuild_scenery_ini_Raise. by rewrite He.
Qed.

Lemma missing_category_file_propagates_witness :
  ∃ p, read_scenery_db
    {[ SEC_SCENERY := {[ "top" := "db/top.txt"; "base" := "db/base.txt" ]} ]}
    {| files := {[ "db/top.txt" := "top/A" ]}; dirs := ∅ |}
    = Raise (FileNotFoundError p).
Proof.
  destruct (missing_category_file_propagates
    {[ SEC_SCENERY := {[ "top" := "db/top.txt"; "base" := "db/base.txt" ]} ]}
    {[ "top" := "db/top.txt"; "base" := "db/base.txt" ]}
    {| files := {[ "db/top.txt" := "top/A" ]}; dirs := ∅ |}
    "base" "db/base.txt") as (p & _ & Hdb & _).
  - reflexivity.
  - apply list_elem_of_In. simpl. tauto.
  - reflexivity.
  - reflexivity.
  - by exists p.
Defined.

(** ** Empty entries *)

Lemma clean_line_blank : clean_line NL = "".
Proof. reflexivity. Qed.

(** A blank line of a list file is read as an empty entry. *)
Lemma read_scenery_list_blank_line (fs : filesystem) (path content : string) :
  files fs !! path = Some content → NL ∈ readlines content →
  ∃ entries, read_scenery_list fs path = Ok entries ∧ "" ∈ entries.
Proof.
  intros Hc Hnl. rewrite (read_scenery_list_Some _ _ _ Hc).
  eexists. split; [done|]. apply list_elem_of_fmap. by exists NL.
Qed.

(** C9. Rendering takes the first character of every entry of the merged
    sequence: [make_scenery_ini] returns a text exactly when no entry is
    empty, and raises [IndexError] when one is. An empty entry comes from a
    blank line of a category file: the file [top/A], blank line, [libs/B] is
    read as the entries [top/A], the empty string and [libs/B], and the
    rebuild then stops with [IndexError] and writes nothing. *)
Theorem rendering_needs_nonempty_entries
    (cfg : config) (cfg_ops : section) (merge_mode : string) (zz_at_end : bool)
    (db cs : list string) :
  cfg !! SEC_OPS = Some cfg_ops →
  cfg_ops !! OPT_OPS_MERGE = Some merge_mode →
  getboolean cfg_ops OPT_OPS_ZZEND true = Ok zz_at_end →
  ((∃ sini, make_scenery_ini cfg db cs = Ok sini) ↔
   Forall (λ s, s ≠ "") (sceneries merge_mode zz_at_end db cs)) ∧
  ("" ∈ sceneries merge_mode zz_at_end db cs ↔
   make_scenery_ini cfg db cs = Raise IndexError) ∧
  let fs :=
    {| files := {[ "db/top.txt" := "top/A" +:+ NL +:+ NL +:+ "libs/B" +:+ NL ]};
       dirs := {[ "xp/Custom Scenery" := [("New", true)] ]} |} in
  let cfg' : config :=
    {[ SEC_SCENERY := {[ OPT_SCENERY_TOP := "db/top.txt" ]};
       SEC_XPL := {[ OPT_XPL_INSTALL_PATH := "xp" ]};
       SEC_OPS := {[ OPT_OPS_MERGE := "bottom" ]} ]} in
  read_scenery_db cfg' fs = Ok ["top/A"; ""; "libs/B"] ∧
  rebuild_scenery_ini cfg' fs = (Raise IndexError, fs).
Proof.
  intros Hops Hm Hzz.
  rewrite (make_scenery_ini_unfold _ _ _ _ _ _ Hops Hm Hzz).
  set (l := sceneries merge_mode zz_at_end db cs).
  assert (Forall (λ s, s ≠ "") l ∨ "" ∈ l) as Hcases.
  { destruct (decide ("" ∈ l)) as [|Hn]; [by right|left].
    apply Forall_forall. by intros s Hs ->. }
  split; [|split].
  - split.
    + intros [sini Hsini]. destruct Hcases as [|Hin]; [done|].
      by rewrite for_each_scenery_line_empty in Hsini.
    + intros Hne. rewrite for_each_scenery_line_nonempty by done. by eexists.
  - split.
    + intros Hin. by rewrite for_each_scenery_line_empty.
    + intros Hraise. destruct Hcases as [Hne|]; [|done].
      by rewrite for_each_scenery_line_nonempty in Hraise.
  - vm_compute. done.
Qed.

Lemma rendering_needs_nonempty_entries_witness :
  make_scenery_ini {[ SEC_OPS := {[ OPT_OPS_MERGE := "bottom" ]} ]}
    ["top/A"; ""] ["Custom Scenery/New"] = Raise IndexError.
Proof.
  apply (rendering_needs_nonempty_entries
    {[ SEC_OPS := {[ OPT_OPS_MERGE := "bottom" ]} ]}
    {[ OPT_OPS_MERGE := "bottom" ]} "bottom" true
    ["top/A"; ""] ["Custom Scenery/New"]).
  - reflexivity.
  - reflexivity.
  - reflexivity.
  - vm_compute. apply list_elem_of_In. simpl. tauto.
Defined.

(** ** Merge modes *)

(** C10. A merge mode other than the exact string [top] merges as [bottom]
    does: the merged sequence is the same, and a configuration with such a
    merge mode gives the result, text or error, that the configuration with
    merge mode [bottom] gives, so the value itself is never rejected. *)
Theorem merge_mode_default_bottom
    (cfg : config) (cfg_ops : section) (merge_mode : string) (zz_at_end : bool)
    (db cs : list string) :
  merge_mode ≠ "top" →
  sceneries merge_mode zz_at_end db cs = sceneries "bottom" zz_at_end db cs ∧
  sceneries merge_mode zz_at_end db cs =
    db ++ cs_sceneries zz_at_end cs ++ zz_sceneries zz_at_end cs ∧
  make_scenery_ini (<[SEC_OPS := <[OPT_OPS_MERGE := merge_mode]> cfg_ops]> cfg)
    db cs =
  make_scenery_ini (<[SEC_OPS := <[OPT_OPS_MERGE := "bottom"]> cfg_ops]> cfg)
    db cs.
Proof.
  intros Hm.
  assert (sceneries merge_mode zz_at_end db cs =
          sceneries "bottom" zz_at_end db cs) as Heq.
  { by rewrite !sceneries_not_top. }
  split; [done|]. split; [by apply sceneries_not_top|].
  unfold make_scenery_ini, getitem.
  rewrite !lookup_insert_eq, !bind_Ok.
  rewrite !lookup_insert_eq, !bind_Ok.
  assert (∀ m, getboolean (<[OPT_OPS_MERGE := m]> cfg_ops) OPT_OPS_ZZEND true
               = getboolean cfg_ops OPT_OPS_ZZEND true) as Hgb.
  { intros m. unfold getboolean. by rewrite lookup_insert_ne. }
  rewrite !Hgb.
  destruct (getboolean cfg_ops OPT_OPS_ZZEND true) as [zz|e]; [|done].
  rewrite !bind_Ok. by rewrite !sceneries_not_top.
Qed.

Lemma merge_mode_default_bottom_witness :
  sceneries "Top" true ["top/A"] ["Custom Scenery/New"] =
  sceneries "bottom" true ["top/A"] ["Custom Scenery/New"].
Proof.
  refine (proj1 (merge_mode_default_bottom ∅ ∅ "Top" true
    ["top/A"] ["Custom Scenery/New"] _)).
  discriminate.
Defined.

(** ** A complete run *)

(** The scan keeps the directories, the DB file is read, the colliding
    directory is dropped, and the text is written to the default place. *)
Example rebuild_scenery_ini_run :
  let fs :=
    {| files := {[ "db/top.txt" := "top/A/" +:+ NL +:+ "-libs\B" +:+ NL ]};
       dirs := {[ "xp/Custom Scenery" :=
                    [("zzTerrain", true); ("A", true); ("notes.txt", false);
                     ("New", true)] ]} |} in
  let cfg : config :=
    {[ SEC_SCENERY := {[ OPT_SCENERY_TOP := "db/top.txt" ]};
       SEC_XPL := {[ OPT_XPL_INSTALL_PATH := "xp" ]};
       SEC_OPS := {[ OPT_OPS_MERGE := "bottom" ]} ]} in
  let (r, fs') := rebuild_scenery_ini cfg fs in
  r = Ok () ∧
  files fs' !! "xp/Custom Scenery/scenery_packs.ini" =
    Some (HEADER +:+ "SCENERY_PACK top/A/" +:+ NL +:+
          "SCENERY_DISABLED libs/B/" +:+ NL +:+
          "SCENERY_PACK Custom Scenery/New/" +:+ NL +:+
          "SCENERY_PACK Custom Scenery/zzTerrain/").
Proof. vm_compute. done. Qed.

(** * Further properties of the program *)

(** ** Entries read from a list file *)

Lemma rstrip_empty_iff (drop : ascii → bool) (s : string) :
  rstrip drop s = "" ↔ all_chars drop s = true.
Proof.
  induction s as [|c s IH]; [done|]. simpl.
  destruct (rstrip drop s) as [|c' r] eqn:Hr.
  - destruct (drop c); simpl; [|done].
    split; intros _; [by apply IH | done].
  - split; [done|]. intros [_ Hall]%andb_true_iff.
    by apply IH in Hall.
Qed.

Lemma rstrip_endswith (drop : ascii → bool) (s : string) :
  (∀ c, c = SEP → drop c = true) → endswith_sep (rstrip drop s) = false.
Proof.
  intros Hdrop. induction s as [|c s IH]; [done|]. simpl.
  destruct (rstrip drop s) as [|c' r] eqn:Hr.
  - destruct (drop c) eqn:Hc; [done|]. simpl.
    apply bool_decide_eq_false. intros ->. by rewrite Hdrop in Hc.
  - done.
Qed.

Lemma rstrip_head (drop : ascii → bool) (s : string) (c : ascii) :
  head_char (rstrip drop s) = Some c → head_char s = Some c.
Proof.
  destruct s as [|c0 s]; [done|]. simpl.
  destruct (rstrip drop s); [destruct (drop c0)|]; by simpl.
Qed.

Lemma lstrip_head (drop : ascii → bool) (s : string) (c : ascii) :
  head_char (lstrip drop s) = Some c → drop c = false.
Proof.
  induction s as [|c0 s IH]; [done|]. simpl.
  destruct (drop c0) eqn:Hc0; [done|]. simpl. by intros [= <-].
Qed.

Lemma clean_line_endswith (line : string) : endswith_sep (clean_line line) = false.
Proof.
  apply rstrip_endswith. intros c ->. reflexivity.
Qed.

Lemma clean_line_head (line : string) (c : ascii) :
  head_char (clean_line line) = Some c → isspace c = false.
Proof.
  unfold clean_line, strip. intros H.
  by apply rstrip_head, rstrip_head, lstrip_head in H.
Qed.

Lemma clean_line_empty_iff (line : string) :
  clean_line line = "" ↔ all_chars is_slash (strip line) = true.
Proof. apply rstrip_empty_iff. Qed.

(** X1. An entry read from a list file never ends with a slash and never
    starts with a whitespace character, and there is one entry per line of
    the file. *)
Theorem read_scenery_list_entries
    (fs : filesystem) (path : string) (entries : list string) :
  read_scenery_list fs path = Ok entries →
  (∃ content, files fs !! path = Some content ∧
              length entries = length (readlines content)) ∧
  ∀ e, e ∈ entries →
    endswith_sep e = false ∧ ∀ c, head_char e = Some c → isspace c = false.
Proof.
  unfold read_scenery_list, open_read.
  destruct (files fs !! path) as [content|] eqn:Hc; [|done].
  rewrite bind_Ok. intros [= <-]. split.
  - exists content. split; [done|]. by rewrite length_fmap.
  - intros e (line & -> & _)%list_elem_of_fmap. split.
    + apply clean_line_endswith.
    + apply clean_line_head.
Qed.

Lemma read_scenery_list_entries_witness :
  endswith_sep "libs/B c" = false.
Proof.
  refine (proj1 (proj2 (read_scenery_list_entries
    {| files := {[ "db/top.txt" :=
                     "  top/A//" +:+ NL +:+ "libs/B c/ " +:+ String CR NL ]};
       dirs := ∅ |} "db/top.txt" ["top/A"; "libs/B c"] _) "libs/B c" _)).
  - reflexivity.
  - apply list_elem_of_In. simpl. tauto.
Defined.

(** X2. A list file gives an empty entry exactly when one of its lines,
    once the surrounding whitespace is removed, consists of slashes only
    (a blank line, or a line that is just [/]). *)
Theorem read_scenery_list_empty_entry
    (fs : filesystem) (path content : string) :
  files fs !! path = Some content →
  ∃ entries, read_scenery_list fs path = Ok entries ∧
    ("" ∈ entries ↔
     ∃ line, line ∈ readlines content ∧ all_chars is_slash (strip line) = true).
Proof.
  intros Hc. rewrite (read_scenery_list_Some _ _ _ Hc).
  eexists. split; [done|]. rewrite list_elem_of_fmap. split.
  - intros (line & Hline & Hin). exists line. split; [done|].
    by apply clean_line_empty_iff.
  - intros (line & Hin & Hall). exists line. split; [|done].
    symmetry. by apply clean_line_empty_iff.
Qed.

Lemma read_scenery_list_empty_entry_witness :
  ∃ entries,
    read_scenery_list
      {| files := {[ "db/top.txt" := "top/A" +:+ NL +:+ " // " +:+ NL ]};
         dirs := ∅ |} "db/top.txt" = Ok entries.
Proof.
  destruct (read_scenery_list_empty_entry
    {| files := {[ "db/top.txt" := "top/A" +:+ NL +:+ " // " +:+ NL ]};
       dirs := ∅ |} "db/top.txt" ("top/A" +:+ NL +:+ " // " +:+ NL))
    as (entries & Hok & _).
  - reflexivity.
  - by exists entries.
Defined.

(** ** The scan of the custom scenery folder *)

Lemma startswith_sep_no_sep (n : string) :
  has_sep n = false → startswith n "/" = false.
Proof.
  intros Hn. destruct (startswith n "/") eqn:Hs; [|done].
  apply startswith_spec in Hs as [r ->]. done.
Qed.

Lemma path_join_custom_scenery (n : string) :
  has_sep n = false →
  path_join "Custom Scenery" n = "Custom Scenery/" +:+ n.
Proof.
  intros Hn. unfold path_join. by rewrite startswith_sep_no_sep.
Qed.

(** X3. The scan returns, in listing order, [Custom Scenery/name] for every
    child that is a directory and nothing for the other children; the base
    name of such an entry is the name of the directory. (A name returned by
    a directory listing has no separator.) *)
Theorem read_xpl_custom_scenery_entries
    (fs : filesystem) (path : string) (children : list (string * bool)) :
  dirs fs !! path = Some children →
  (∀ c, c ∈ children → has_sep c.1 = false) →
  read_xpl_custom_scenery fs path =
    Ok ((λ c : string * bool, "Custom Scenery/" +:+ c.1) <$>
        filter (λ c : string * bool, c.2 = true) children) ∧
  ∀ c, c ∈ children → basename ("Custom Scenery/" +:+ c.1) = c.1.
Proof.
  intros Hdir Hnames. split.
  - unfold read_xpl_custom_scenery, listdir. rewrite Hdir, bind_Ok. f_equal.
    clear Hdir. induction children as [|[n d] children IH]; [done|].
    simpl. rewrite IH by (intros c Hc; apply Hnames; by right).
    rewrite filter_cons. simpl. destruct d; simpl; [|done].
    rewrite path_join_custom_scenery; [done|].
    apply (Hnames (n, true)). by left.
  - intros c Hc.
    apply (basename_append_sep "Custom Scenery" c.1). by apply Hnames.
Qed.

Lemma read_xpl_custom_scenery_entries_witness :
  read_xpl_custom_scenery
    {| files := ∅;
       dirs := {[ "xp/Custom Scenery" :=
                    [("zz", true); ("readme.txt", false); ("-B", true)] ]} |}
    "xp/Custom Scenery" =
  Ok ["Custom Scenery/zz"; "Custom Scenery/-B"].
Proof.
  refine (proj1 (read_xpl_custom_scenery_entries _ "xp/Custom Scenery"
    [("zz", true); ("readme.txt", false); ("-B", true)] _ _)).
  - reflexivity.
  - intros c Hc%list_elem_of_In. simpl in Hc.
    intuition subst; reflexivity.
Defined.

(** ** The merge keeps every entry *)

Lemma filter_partition_Permutation {A} (P : A → Prop)
    `{!∀ x, Decision (P x)} (l : list A) :
  filter (λ x, ¬ P x) l ++ filter P l ≡ₚ l.
Proof.
  induction l as [|x l IH]; [done|].
  rewrite !filter_cons. destruct (decide (P x)) as [HP|HP].
  - rewrite decide_False by tauto.
    rewrite <-Permutation_middle. by constructor.
  - rewrite decide_True by done. simpl. by constructor.
Qed.

Lemma cs_zz_Permutation (zz_at_end : bool) (cs : list string) :
  cs_sceneries zz_at_end cs ++ zz_sceneries zz_at_end cs ≡ₚ cs.
Proof.
  destruct zz_at_end.
  - rewrite cs_sceneries_not_zz. apply filter_partition_Permutation.
  - simpl. by rewrite (right_id_L [] (++)).
Qed.

(** X4. The merged sequence is a rearrangement of the DB list followed by
    the live list: for every merge mode and every [zz_at_end] the merge
    neither drops nor repeats an entry, and the DB entries keep their order
    as one block. *)
Theorem sceneries_Permutation
    (merge_mode : string) (zz_at_end : bool) (db cs : list string) :
  sceneries merge_mode zz_at_end db cs ≡ₚ db ++ cs ∧
  length (sceneries merge_mode zz_at_end db cs) = length db + length cs ∧
  ∃ before after, sceneries merge_mode zz_at_end db cs = before ++ db ++ after.
Proof.
  assert (sceneries merge_mode zz_at_end db cs ≡ₚ db ++ cs) as Hperm.
  { unfold sceneries. destruct (decide (merge_mode = "top")).
    - rewrite (comm (++) _ db), <-(assoc_L (++)).
      by rewrite cs_zz_Permutation.
    - rewrite <-(assoc_L (++)). by rewrite cs_zz_Permutation. }
  split; [done|]. split.
  - by rewrite Hperm, length_app.
  - unfold sceneries. destruct (decide (merge_mode = "top")).
    + exists (cs_sceneries zz_at_end cs), (zz_sceneries zz_at_end cs).
      by rewrite <-(assoc_L (++)).
    + exists [], (cs_sceneries zz_at_end cs ++ zz_sceneries zz_at_end cs).
      by rewrite <-(assoc_L (++)).
Qed.

(** X5. The live list does not depend on the order in which the directory
    listing returns the children, nor on the order of the DB list: it is
    the same for any rearrangement of the scan and any DB list with the
    same base names. *)
Theorem cscen_filtered_order_independent (D D' L L' : list string) :
  L ≡ₚ L' → dscen_base D = dscen_base D' →
  cscen_filtered D L = cscen_filtered D' L'.
Proof.
  intros HL HD. unfold cscen_filtered. rewrite <-HD.
  apply sorted_unique; [apply sorted_Sorted|].
  rewrite sorted_Permutation. by rewrite HL.
Qed.

Lemma cscen_filtered_order_independent_witness :
  cscen_filtered ["top/A"; "libs/B"] ["Custom Scenery/N"; "Custom Scenery/M"] =
  cscen_filtered ["other/B"; "top/A"] ["Custom Scenery/M"; "Custom Scenery/N"].
Proof.
  apply cscen_filtered_order_independent.
  - apply Permutation_swap.
  - vm_compute. reflexivity.
Defined.

(** X6. When no live entry is a zz entry, [zz_at_end] changes nothing. *)
Theorem sceneries_without_zz
    (merge_mode : string) (db cs : list string) :
  (∀ s, s ∈ cs → is_zz s = false) →
  sceneries merge_mode true db cs = sceneries merge_mode false db cs.
Proof.
  intros Hno. unfold sceneries.
  assert (zz_sceneries true cs = []) as ->.
  { simpl. induction cs as [|x cs IH]; [done|].
    rewrite filter_cons_False; [apply IH|].
    - intros s Hs. apply Hno. by right.
    - rewrite (Hno x) by (by left). by intros []. }
  assert (cs_sceneries true cs = cs) as ->.
  { rewrite cs_sceneries_not_zz. apply filter_all.
    intros s Hs. rewrite (Hno s Hs). by intros []. }
  done.
Qed.

Lemma sceneries_without_zz_witness :
  sceneries "top" true ["top/z"] ["Custom Scenery/A"; "Custom Scenery/B"] =
  sceneries "top" false ["top/z"] ["Custom Scenery/A"; "Custom Scenery/B"].
Proof.
  apply sceneries_without_zz.
  intros s Hs%list_elem_of_In. simpl in Hs. intuition subst; reflexivity.
Defined.

(** ** Rendered lines *)

Lemma has_char_app (c : ascii) (a b : string) :
  has_char c (a +:+ b) = has_char c a || has_char c b.
Proof.
  induction a as [|c' a IH]; [done|].
  rewrite append_String. simpl. by rewrite IH, orb_assoc.
Qed.

Lemma has_char_to_slash (s : string) :
  has_char "\"%char (map_chars to_slash s) = false.
Proof.
  induction s as [|c s IH]; [done|]. simpl. rewrite IH, orb_false_r.
  apply bool_decide_eq_false. unfold to_slash.
  by destruct (decide (c = "\"%char)).
Qed.

Lemma append_assoc (a b c : string) : a +:+ b +:+ c = (a +:+ b) +:+ c.
Proof.
  induction a as [|x a IH]; [done|]. by rewrite !append_String, IH.
Qed.

Lemma endswith_sep_app_sep (a : string) : endswith_sep (a +:+ "/") = true.
Proof.
  induction a as [|c a IH]; [done|].
  rewrite append_String. simpl. rewrite IH.
  by destruct (a +:+ "/") eqn:Ha; [destruct a|].
Qed.

Lemma spec_line_shape (s : string) :
  has_char "\"%char (spec_line s) = false ∧
  endswith_sep (spec_line s) = true ∧
  startswith (spec_line s) "SCENERY_DISABLED " =
    bool_decide (head_char s = Some "-"%char) ∧
  startswith (spec_line s) "SCENERY_PACK " =
    negb (bool_decide (head_char s = Some "-"%char)).
Proof.
  assert (∀ mode path,
    has_char "\"%char mode = false →
    has_char "\"%char (mode +:+ map_chars to_slash path +:+ "/") = false ∧
    endswith_sep (mode +:+ map_chars to_slash path +:+ "/") = true) as Hshape.
  { intros mode path Hmode. split.
    - by rewrite !has_char_app, Hmode, has_char_to_slash.
    - rewrite append_assoc. apply endswith_sep_app_sep. }
  destruct s as [|c s].
  { by vm_compute. }
  destruct (decide (c = "-"%char)) as [->|Hc].
  - assert (spec_line (String "-" s) =
            "SCENERY_DISABLED " +:+ map_chars to_slash s +:+ "/") as ->
      by done.
    destruct (Hshape "SCENERY_DISABLED " s eq_refl) as [-> ->].
    rewrite bool_decide_eq_true_2 by done.
    repeat split; try reflexivity. apply startswith_spec. by eexists.
  - assert (spec_line (String c s) =
            "SCENERY_PACK " +:+ map_chars to_slash (String c s) +:+ "/") as ->.
    { unfold spec_line. destruct c as [[] [] [] [] [] [] [] []]; done. }
    destruct (Hshape "SCENERY_PACK " (String c s) eq_refl) as [-> ->].
    rewrite bool_decide_eq_false_2 by (simpl; congruence).
    repeat split; reflexivity.
Qed.

(** X7. A rendered line contains no backslash and ends with a slash; it
    starts with [SCENERY_DISABLED ] exactly when the entry starts with [-],
    and with [SCENERY_PACK ] otherwise. *)
Theorem scenery_line_shape (s line : string) :
  scenery_line s = Ok line →
  has_char "\"%char line = false ∧
  endswith_sep line = true ∧
  startswith line "SCENERY_DISABLED " =
    bool_decide (head_char s = Some "-"%char) ∧
  startswith line "SCENERY_PACK " =
    negb (bool_decide (head_char s = Some "-"%char)).
Proof.
  destruct (decide (s = "")) as [->|Hs]; [done|].
  rewrite scenery_line_nonempty by done. intros [= <-].
  apply spec_line_shape.
Qed.

Lemma scenery_line_shape_witness :
  has_char "\"%char "SCENERY_DISABLED libs/sub/Old/" = false.
Proof.
  refine (proj1 (scenery_line_shape "-libs\sub\Old" _ _)).
  reflexivity.
Defined.

(** ** Configuration of the merge *)

(** X8. Leaving [zz_at_end] out of the configuration is the same as setting
    it to [true]. *)
Theorem zz_at_end_default
    (cfg : config) (cfg_ops : section) (db cs : list string) :
  cfg_ops !! OPT_OPS_ZZEND = None →
  make_scenery_ini (<[SEC_OPS := cfg_ops]> cfg) db cs =
  make_scenery_ini (<[SEC_OPS := <[OPT_OPS_ZZEND := "true"]> cfg_ops]> cfg)
    db cs.
Proof.
  intros Hzz. unfold make_scenery_ini, getitem.
  rewrite !lookup_insert_eq, !bind_Ok.
  rewrite (lookup_insert_ne cfg_ops) by done.
  destruct (cfg_ops !! OPT_OPS_MERGE) as [merge_mode|]; [|done].
  rewrite !bind_Ok. unfold getboolean.
  by rewrite Hzz, lookup_insert_eq.
Qed.

Lemma zz_at_end_default_witness :
  make_scenery_ini {[ SEC_OPS := {[ OPT_OPS_MERGE := "top" ]} ]}
    ["top/A"] ["Custom Scenery/B"; "Custom Scenery/z"] =
  make_scenery_ini
    {[ SEC_OPS := {[ OPT_OPS_ZZEND := "true"; OPT_OPS_MERGE := "top" ]} ]}
    ["top/A"] ["Custom Scenery/B"; "Custom Scenery/z"].
Proof.
  pose proof (zz_at_end_default ∅ {[ OPT_OPS_MERGE := "top" ]}
    ["top/A"] ["Custom Scenery/B"; "Custom Scenery/z"] eq_refl) as H.
  rewrite !insert_empty in H. exact H.
Defined.

(** X9. The merge mode is required although any value is accepted: without
    the section [ops] or without its option [merge_mode] the text is not
    made and [KeyError] names what is absent, whatever the entries are. *)
Theorem make_scenery_ini_requires_merge_mode
    (cfg : config) (db cs : list string) :
  cfg !! SEC_OPS ≫= (λ cfg_ops : section, cfg_ops !! OPT_OPS_MERGE) = None →
  make_scenery_ini cfg db cs =
  Raise (KeyError (if cfg !! SEC_OPS is Some _ then "merge_mode" else "ops")).
Proof.
  intros H. unfold make_scenery_ini, getitem.
  destruct (cfg !! SEC_OPS) as [cfg_ops|]; [|done].
  simpl in H. rewrite bind_Ok. by rewrite H.
Qed.

Lemma make_scenery_ini_requires_merge_mode_witness :
  make_scenery_ini {[ SEC_OPS := {[ OPT_OPS_ZZEND := "no" ]} ]} [""] [] =
  Raise (KeyError "merge_mode").
Proof.
  exact (make_scenery_ini_requires_merge_mode
    {[ SEC_OPS := {[ OPT_OPS_ZZEND := "no" ]} ]} [""] [] eq_refl).
Defined.

(** ** The write step *)









(** ** Reading the sceneries *)

Lemma read_scenery_db_loop_frame
    (cfg_scen : section) (fs fs' : filesystem) (sts scenery_db : list string) :
  (∀ st path, st ∈ sts → cfg_scen !! st = Some path →
              files fs !! path = files fs' !! path) →
  read_scenery_db_loop cfg_scen fs sts scenery_db =
  read_scenery_db_loop cfg_scen fs' sts scenery_db.
Proof.
  revert scenery_db. induction sts as [|st sts IH]; intros scenery_db Hsame;
    [done|].
  simpl. destruct (cfg_scen !! st) as [path|] eqn:Hst.
  - assert (read_scenery_list fs path = read_scenery_list fs' path) as ->.
    { unfold read_scenery_list, open_read.
      by rewrite (Hsame st path) by (done || by left). }
    destruct (read_scenery_list fs' path) as [entries|e]; [|done].
    rewrite !bind_Ok. apply IH. intros ???. apply Hsame. by right.
  - apply IH. intros ???. apply Hsame. by right.
Qed.

(** X12. The DB list depends on the file system only through the files of
    the configured categories: two file systems that agree on these files
    give the same DB list or the same error, whatever else they hold. *)
Theorem read_scenery_db_frame
    (cfg : config) (fs fs' : filesystem) :
  (∀ cfg_scen st path,
     cfg !! SEC_SCENERY = Some cfg_scen → st ∈ stypes →
     cfg_scen !! st = Some path → files fs !! path = files fs' !! path) →
  read_scenery_db cfg fs = read_scenery_db cfg fs'.
Proof.
  intros Hsame. unfold read_scenery_db, getitem.
  destruct (cfg !! SEC_SCENERY) as [cfg_scen|] eqn:Hscen; [|done].
  rewrite !bind_Ok. apply read_scenery_db_loop_frame.
  intros st path. by apply Hsame.
Qed.

Lemma read_scenery_db_frame_witness :
  read_scenery_db {[ SEC_SCENERY := {[ "top" := "db/top.txt" ]} ]}
    {| files := {[ "db/top.txt" := "top/A" ]}; dirs := ∅ |} =
  read_scenery_db {[ SEC_SCENERY := {[ "top" := "db/top.txt" ]} ]}
    {| files := {[ "db/top.txt" := "top/A"; "db/base.txt" := "mesh/Z" ]};
       dirs := {[ "xp" := [] ]} |}.
Proof.
  apply read_scenery_db_frame.
  intros cfg_scen st path [= <-] Hst%list_elem_of_In Hpath. simpl in Hst.
  intuition subst; vm_compute in Hpath; simplify_eq; reflexivity.
Defined.




(** X14. The custom scenery folder is scanned before the DB is read: when
    the folder cannot be listed, reading the sceneries and the rebuild stop
    with [FileNotFoundError] for the folder, or with [NotADirectoryError]
    when it is a file, whatever the DB configuration is, and nothing is
    written. *)
Theorem scan_error_first
    (cfg : config) (cfg_xpl : section) (install_path : string)
    (fs : filesystem) :
  let folder := path_join install_path "Custom Scenery" in
  cfg !! SEC_XPL = Some cfg_xpl →
  cfg_xpl !! OPT_XPL_INSTALL_PATH = Some install_path →
  dirs fs !! folder = None →
  let e := if files fs !! folder is Some _
           then NotADirectoryError folder else FileNotFoundError folder in
  read_all_sceneries cfg fs = Raise e ∧
  rebuild_scenery_ini cfg fs = (Raise e, fs).
Proof.
  intros folder Hxpl Hinst Hdir e.
  assert (read_all_sceneries cfg fs = Raise e) as Hall.
  { unfold read_all_sceneries.
    rewrite (getitem_Some _ _ _ Hxpl), bind_Ok.
    rewrite (getitem_Some _ _ _ Hinst), bind_Ok.
    unfold read_xpl_custom_scenery, listdir. fold folder. rewrite Hdir.
    unfold e. by destruct (files fs !! folder). }
  split; [done|]. apply rebuild_scenery_ini_Raise. by rewrite Hall.
Qed.

Lemma scan_error_first_witness :
  rebuild_scenery_ini {[ SEC_XPL := {[ OPT_XPL_INSTALL_PATH := "xp" ]} ]}
    {| files := {[ "xp/Custom Scenery" := "" ]}; dirs := ∅ |} =
  (Raise (NotADirectoryError "xp/Custom Scenery"),
   {| files := {[ "xp/Custom Scenery" := "" ]}; dirs := ∅ |}).
Proof.
  refine (proj2 (scan_error_first
    {[ SEC_XPL := {[ OPT_XPL_INSTALL_PATH := "xp" ]} ]}
    {[ OPT_XPL_INSTALL_PATH := "xp" ]} "xp"
    {| files := {[ "xp/Custom Scenery" := "" ]}; dirs := ∅ |} _ _ _));
    reflexivity.
Defined.

(** ** The rebuild *)








(** ** The entry point *)

Section main_properties.
Variable read_file : string → result config.

(** X18. With fewer than two arguments the configuration is read from
    [spbuilder.ini]; when the configuration file is absent the run stops
    with [FileNotFoundError] for it before anything is parsed or written. *)
Theorem main_config_file (args : list string) (fs : filesystem) :
  files fs !! config_file_of args = None →
  main read_file args fs =
    (Raise (FileNotFoundError (config_file_of args)), fs) ∧
  (length args < 2 → config_file_of args = "spbuilder.ini") ∧
  (∀ prog a rest, args = prog :: a :: rest → config_file_of args = a).
Proof.
  intros Hnone. split; [|split].
  - unfold main, read_config, open_read. by rewrite Hnone.
  - destruct args as [|prog [|a rest]]; simpl; [done..|lia].
  - by intros prog a rest ->.
Qed.

End main_properties.

Lemma main_config_file_witness :
  main (λ _, Ok ∅) ["spbuilder.py"] {| files := ∅; dirs := ∅ |} =
  (Raise (FileNotFoundError "spbuilder.ini"), {| files := ∅; dirs := ∅ |}).
Proof.
  refine (proj1 (main_config_file (λ _, Ok ∅) ["spbuilder.py"]
    {| files := ∅; dirs := ∅ |} _)).
  reflexivity.
Defined.

